(** * Wire field accessors of LOCI's [of_message.h]

    A shallow embedding of [Modules/loci/inc/loci/of_message.h]: the get/set
    accessors of the OpenFlow header fields that work directly on a raw
    message buffer.

    The buffer is caller memory, a [list byte]; an [of_message_t] is a
    [uint8_t *], here an address in that memory, and [msg + OFFSET] is the
    pointer arithmetic of the source.  The accessors "do no range checking and
    assume a buffer with sufficient length": an access past the end of the
    memory is undefined in C and is [None] here. *)

From Stdlib Require Import ZArith Lia.
From Stdlib Require Import Init.Byte Strings.Byte.
From stdpp Require Import base option list.

Local Open Scope Z_scope.

(** ** Machine integers and bytes *)

(** [uintN_t] values are [Z]s; the conversion to an unsigned type keeps the
    low bits. *)
Definition to_uint8 (v : Z) : Z := Z.land v 0xff.
Definition to_uint16 (v : Z) : Z := Z.land v 0xffff.
Definition to_uint32 (v : Z) : Z := Z.land v 0xffffffff.

Definition Z_of_byte (b : byte) : Z := Z.of_N (Byte.to_N b).

(** Conversion of an integer to [uint8_t] as one byte of memory. *)
Definition byte_of_Z (v : Z) : byte :=
  default x00 (Byte.of_N (Z.to_N (to_uint8 v))).

(** ** Memory *)

Abbreviation mem := (list byte).

(** Read [n] bytes starting at address [p]. *)
Fixpoint load (m : mem) (p : nat) (n : nat) : option (list byte) :=
  match n with
  | O => Some []
  | S k => b ← m !! p; bs ← load m (S p) k; Some (b :: bs)
  end.

(** Write the bytes [bs] starting at address [p]. *)
Definition store (m : mem) (p : nat) (bs : list byte) : option mem :=
  if decide (p + length bs ≤ length m)%nat
  then Some (list_inserts p bs m) else None.

(** ** Byte order of the host *)

Inductive byte_order := BigEndian | LittleEndian.

(** The [n] bytes of [v], least significant first. *)
Fixpoint bytes_le (n : nat) (v : Z) : list byte :=
  match n with
  | O => []
  | S k => byte_of_Z v :: bytes_le k (Z.shiftr v 8)
  end.

(** The integer whose bytes, least significant first, are [bs]. *)
Fixpoint int_le (bs : list byte) : Z :=
  match bs with
  | [] => 0
  | b :: r => Z.lor (Z_of_byte b) (Z.shiftl (int_le r) 8)
  end.

Definition bswap16 (v : Z) : Z :=
  Z.lor (Z.shiftl (Z.land v 0xff) 8) (Z.land (Z.shiftr v 8) 0xff).

Definition bswap32 (v : Z) : Z :=
  Z.lor (Z.lor (Z.shiftl (Z.land v 0xff) 24) (Z.shiftl (Z.land v 0xff00) 8))
        (Z.lor (Z.land (Z.shiftr v 8) 0xff00) (Z.land (Z.shiftr v 24) 0xff)).

Section Host.

(** The byte order of the machine the accessors run on. *)
Variable host : byte_order.

(** An [n]-byte integer as the host keeps it in memory. *)
Definition native_encode (n : nat) (v : Z) : list byte :=
  match host with
  | LittleEndian => bytes_le n v
  | BigEndian => rev (bytes_le n v)
  end.

Definition native_decode (bs : list byte) : Z :=
  match host with
  | LittleEndian => int_le bs
  | BigEndian => int_le (rev bs)
  end.

(** Modelled from the spec: the byte-order conversion primitive, "network-to-host
    and host-to-network conversion for 2- and 4-byte integers" (the
    [htons]/[ntohs]/[htonl]/[ntohl] behind [loci/of_buffer.h], which is not
    part of the sources at hand).  Network order is big-endian. *)
Definition htons (v : Z) : Z :=
  match host with BigEndian => to_uint16 v | LittleEndian => bswap16 v end.
Definition ntohs (v : Z) : Z := htons v.
Definition htonl (v : Z) : Z :=
  match host with BigEndian => to_uint32 v | LittleEndian => bswap32 v end.
Definition ntohl (v : Z) : Z := htonl v.

(** Modelled from the spec: the scalar buffer primitives of [loci/of_buffer.h]
    (included by [of_message.h], not part of the sources at hand).  "[get]
    reads the declared width at the declared offset, applies byte-order
    conversion for multi-byte fields"; "[set] writes the declared width at
    the declared offset, applying host-to-network conversion for multi-byte
    fields"; "single-byte fields require no conversion". *)
Definition buf_u8_get (m : mem) (buf : nat) : option Z :=
  Z_of_byte <$> m !! buf.
Definition buf_u16_get (m : mem) (buf : nat) : option Z :=
  bs ← load m buf 2; Some (ntohs (native_decode bs)).
Definition buf_u32_get (m : mem) (buf : nat) : option Z :=
  bs ← load m buf 4; Some (ntohl (native_decode bs)).

Definition buf_u8_set (m : mem) (buf : nat) (val : Z) : option mem :=
  store m buf [byte_of_Z val].
Definition buf_u16_set (m : mem) (buf : nat) (val : Z) : option mem :=
  store m buf (native_encode 2 (htons val)).
Definition buf_u32_set (m : mem) (buf : nat) (val : Z) : option mem :=
  store m buf (native_encode 4 (htonl val)).

(** ** The accessors of [of_message.h]

    A parameter of type [uintN_t] holds its argument converted to that type
    (C converts at the call); the [let] at the head of a setter is that
    conversion. *)

(** [typedef uint8_t *of_message_t;] *)
Definition of_message_t := nat.

(** [of_version_t] is an enumeration, an [int]. *)
Definition of_version_t := Z.

(** Modelled from the spec: the enumerator [OF_VERSION_1_0] (declared outside
    [of_message.h]), the wire value of protocol version 1.0.  It is the value
    the offset macros of [of_message.h] compare the version with; later
    revisions have larger wire values (the spec's scenario uses 4). *)
Definition OF_VERSION_1_0 : of_version_t := 1.

Definition OF_MESSAGE_VERSION_OFFSET : nat := 0.
Definition OF_MESSAGE_TYPE_OFFSET : nat := 1.
Definition OF_MESSAGE_LENGTH_OFFSET : nat := 2.
Definition OF_MESSAGE_XID_OFFSET : nat := 4.
Definition OF_MESSAGE_HEADER_LENGTH : nat := 8.
Definition OF_MESSAGE_STATS_TYPE_OFFSET : nat := 8.
Definition OF_MESSAGE_FLOW_MOD_COMMAND_OFFSET (version : of_version_t) : nat :=
  if version =? 1 then 56%nat else 25%nat.

Definition OF_MESSAGE_MIN_LENGTH : nat := 8.
Definition OF_MESSAGE_MIN_STATS_LENGTH : nat :=
  OF_MESSAGE_STATS_TYPE_OFFSET + 2.
Definition OF_MESSAGE_MIN_FLOW_MOD_LENGTH (version : of_version_t) : nat :=
  if version =? 1 then 57%nat else 26%nat.

Definition OF_MESSAGE_EXPERIMENTER_ID_OFFSET : nat := 8.
Definition OF_MESSAGE_EXPERIMENTER_SUBTYPE_OFFSET : nat := 12.
Definition OF_MESSAGE_EXPERIMENTER_MIN_LENGTH : nat := 16.

Definition of_message_version_get (m : mem) (msg : of_message_t)
  : option of_version_t :=
  Z_of_byte <$> m !! (msg + OF_MESSAGE_VERSION_OFFSET)%nat.

Definition of_message_version_set (m : mem) (msg : of_message_t)
    (version : of_version_t) : option mem :=
  buf_u8_set m msg (to_uint8 version).

Definition of_message_type_get (m : mem) (msg : of_message_t) : option Z :=
  Z_of_byte <$> m !! (msg + OF_MESSAGE_TYPE_OFFSET)%nat.

Definition of_message_type_set (m : mem) (msg : of_message_t) (value : Z)
  : option mem :=
  let value := to_uint8 value in
  buf_u8_set m (msg + OF_MESSAGE_TYPE_OFFSET) value.

Definition of_message_length_get (m : mem) (msg : of_message_t) : option Z :=
  val ← buf_u16_get m (msg + OF_MESSAGE_LENGTH_OFFSET);
  Some val.

Definition of_message_length_set (m : mem) (msg : of_message_t) (len : Z)
  : option mem :=
  let len := to_uint16 len in
  buf_u16_set m (msg + OF_MESSAGE_LENGTH_OFFSET) len.

Definition of_message_xid_get (m : mem) (msg : of_message_t) : option Z :=
  val ← buf_u32_get m (msg + OF_MESSAGE_XID_OFFSET);
  Some val.

Definition of_message_xid_set (m : mem) (msg : of_message_t) (xid : Z)
  : option mem :=
  let xid := to_uint32 xid in
  buf_u32_set m (msg + OF_MESSAGE_XID_OFFSET) xid.

Definition of_message_stats_type_get (m : mem) (msg : of_message_t)
  : option Z :=
  val ← buf_u16_get m (msg + OF_MESSAGE_STATS_TYPE_OFFSET);
  Some val.

Definition of_message_stats_type_set (m : mem) (msg : of_message_t)
    (type : Z) : option mem :=
  let type := to_uint16 type in
  buf_u16_set m (msg + OF_MESSAGE_STATS_TYPE_OFFSET) type.

Definition of_message_experimenter_id_get (m : mem) (msg : of_message_t)
  : option Z :=
  val ← buf_u32_get m (msg + OF_MESSAGE_EXPERIMENTER_ID_OFFSET);
  Some val.

Definition of_message_experimenter_id_set (m : mem) (msg : of_message_t)
    (experimenter_id : Z) : option mem :=
  let experimenter_id := to_uint32 experimenter_id in
  buf_u32_set m (msg + OF_MESSAGE_EXPERIMENTER_ID_OFFSET) experimenter_id.

Definition of_message_experimenter_subtype_get (m : mem) (msg : of_message_t)
  : option Z :=
  val ← buf_u32_get m (msg + OF_MESSAGE_EXPERIMENTER_SUBTYPE_OFFSET);
  Some val.

Definition of_message_experimenter_subtype_set (m : mem) (msg : of_message_t)
    (subtype : Z) : option mem :=
  let subtype := to_uint32 subtype in
  buf_u32_set m (msg + OF_MESSAGE_EXPERIMENTER_SUBTYPE_OFFSET) subtype.

(** "Flow mod command changed from 16 to 8 bits on the wire from 1.0 to 1.1" *)
Definition of_message_flow_mod_command_get (m : mem) (msg : of_message_t)
    (version : of_version_t) : option Z :=
  if decide (version = OF_VERSION_1_0) then
    val16 ← buf_u16_get m (msg + OF_MESSAGE_FLOW_MOD_COMMAND_OFFSET version);
    let val8 := to_uint8 val16 in
    Some val8
  else
    val8 ← buf_u8_get m (msg + OF_MESSAGE_FLOW_MOD_COMMAND_OFFSET version);
    Some val8.

Definition of_message_flow_mod_command_set (m : mem) (msg : of_message_t)
    (version : of_version_t) (command : Z) : option mem :=
  let command := to_uint8 command in
  if decide (version = OF_VERSION_1_0) then
    let val16 := to_uint16 command in
    buf_u16_set m (msg + OF_MESSAGE_FLOW_MOD_COMMAND_OFFSET version) val16
  else
    buf_u8_set m (msg + OF_MESSAGE_FLOW_MOD_COMMAND_OFFSET version) command.

(** ** The field table of the specification

    One descriptor per header field: "a fixed byte offset and width, except
    for the command field, whose offset and width are a function of Protocol
    Version".  [field_set] and [field_get] name the accessor pair of each
    field. *)

Inductive field :=
  | Version
  | MsgType
  | Length
  | Xid
  | StatsType
  | ExperimenterId
  | ExperimenterSubtype
  | FlowModCommand (version : of_version_t).

Definition field_offset (f : field) : nat :=
  match f with
  | Version => 0
  | MsgType => 1
  | Length => 2
  | Xid => 4
  | StatsType => 8
  | ExperimenterId => 8
  | ExperimenterSubtype => 12
  | FlowModCommand version =>
      if decide (version = OF_VERSION_1_0) then 56 else 25
  end%nat.

Definition field_width (f : field) : nat :=
  match f with
  | Version | MsgType => 1
  | Length | StatsType => 2
  | Xid | ExperimenterId | ExperimenterSubtype => 4
  | FlowModCommand version =>
      if decide (version = OF_VERSION_1_0) then 2 else 1
  end%nat.

(** The number of bits of a field's value: those of its width, except that the
    command has the "value range 0-255" in both of its forms. *)
Definition field_bits (f : field) : Z :=
  match f with
  | FlowModCommand _ => 8
  | _ => 8 * Z.of_nat (field_width f)
  end.

Definition representable (f : field) (v : Z) : Prop := 0 ≤ v < 2 ^ field_bits f.

Definition field_set (f : field) (m : mem) (msg : of_message_t) (v : Z)
  : option mem :=
  match f with
  | Version => of_message_version_set m msg v
  | MsgType => of_message_type_set m msg v
  | Length => of_message_length_set m msg v
  | Xid => of_message_xid_set m msg v
  | StatsType => of_message_stats_type_set m msg v
  | ExperimenterId => of_message_experimenter_id_set m msg v
  | ExperimenterSubtype => of_message_experimenter_subtype_set m msg v
  | FlowModCommand version => of_message_flow_mod_command_set m msg version v
  end.

Definition field_get (f : field) (m : mem) (msg : of_message_t) : option Z :=
  match f with
  | Version => of_message_version_get m msg
  | MsgType => of_message_type_get m msg
  | Length => of_message_length_get m msg
  | Xid => of_message_xid_get m msg
  | StatsType => of_message_stats_type_get m msg
  | ExperimenterId => of_message_experimenter_id_get m msg
  | ExperimenterSubtype => of_message_experimenter_subtype_get m msg
  | FlowModCommand version => of_message_flow_mod_command_get m msg version
  end.

End Host.

(** The [n] bytes of [v] in network order, most significant first. *)
Definition wire_bytes (n : nat) (v : Z) : list byte := rev (bytes_le n v).

(** The integer that the bytes [bs] denote in network order. *)
Definition wire_int (bs : list byte) : Z := int_le (rev bs).

(** The value a setter stores: its argument converted to the parameter type. *)
Definition field_arg (f : field) (v : Z) : Z :=
  match f with
  | Version | MsgType | FlowModCommand _ => to_uint8 v
  | Length | StatsType => to_uint16 v
  | Xid | ExperimenterId | ExperimenterSubtype => to_uint32 v
  end.

(** The value a getter returns from the integer on the wire: the command
    getter returns a [uint8_t]. *)
Definition field_ret (f : field) (v : Z) : Z :=
  match f with
  | FlowModCommand _ => to_uint8 v
  | _ => v
  end.

(** The integer with the big-endian digits [bs], in base 256. *)
Definition be_value (bs : list byte) : Z :=
  fold_left (λ acc b, acc * 256 + Z_of_byte b) bs 0.

(** Two fields whose byte ranges do not overlap. *)
Definition disjoint_fields (f g : field) : Prop :=
  (field_offset f + field_width f ≤ field_offset g ∨
   field_offset g + field_width g ≤ field_offset f)%nat.

(** The minimum-length constant that [of_message.h] defines for the group of
    a field. *)
Definition min_length (f : field) : nat :=
  match f with
  | Version | MsgType | Length | Xid => OF_MESSAGE_MIN_LENGTH
  | StatsType => OF_MESSAGE_MIN_STATS_LENGTH
  | ExperimenterId | ExperimenterSubtype => OF_MESSAGE_EXPERIMENTER_MIN_LENGTH
  | FlowModCommand version => OF_MESSAGE_MIN_FLOW_MOD_LENGTH version
  end.

(** A buffer of [n] zero bytes. *)
Definition zeros (n : nat) : mem := replicate n x00.

(** * Properties *)

(** ** The accessors on a small buffer *)

Example length_set_little_endian_host :
  of_message_length_set LittleEndian (zeros 8) 0%nat 0x1234
  = Some [x00; x00; x12; x34; x00; x00; x00; x00].
Proof. reflexivity. Qed.

Example length_set_big_endian_host :
  of_message_length_set BigEndian (zeros 8) 0%nat 0x1234
  = Some [x00; x00; x12; x34; x00; x00; x00; x00].
Proof. reflexivity. Qed.

Example xid_get_either_host :
  of_message_xid_get LittleEndian [x04; x0e; x00; x40; xde; xad; xbe; xef] 0%nat
  = Some 0xDEADBEEF ∧
  of_message_xid_get BigEndian [x04; x0e; x00; x40; xde; xad; xbe; xef] 0%nat
  = Some 0xDEADBEEF.
Proof. split; reflexivity. Qed.

Example xid_set_short_buffer :
  of_message_xid_set LittleEndian (zeros 7) 0%nat 1 = None.
Proof. reflexivity. Qed.

(** ** Bytes *)

Lemma Z_of_byte_range (b : byte) : 0 ≤ Z_of_byte b < 256.
Proof.
  unfold Z_of_byte. pose proof (Byte.to_N_bounded b). lia.
Qed.

Lemma to_uint8_range (v : Z) : 0 ≤ to_uint8 v < 256.
Proof.
  unfold to_uint8. change 255 with (Z.ones 8). rewrite Z.land_ones by lia.
  apply Z.mod_pos_bound. lia.
Qed.

Lemma to_uint8_small (v : Z) : 0 ≤ v < 256 → to_uint8 v = v.
Proof.
  intros Hv. unfold to_uint8. change 255 with (Z.ones 8).
  rewrite Z.land_ones by lia. apply Z.mod_small. lia.
Qed.

Lemma Z_of_byte_of_Z (v : Z) : Z_of_byte (byte_of_Z v) = to_uint8 v.
Proof.
  unfold Z_of_byte, byte_of_Z. pose proof (to_uint8_range v) as Hr.
  destruct (Byte.of_N (Z.to_N (to_uint8 v))) as [b|] eqn:Hb; simpl.
  - apply Byte.to_of_N in Hb. rewrite Hb. lia.
  - apply Byte.of_N_None_iff in Hb. lia.
Qed.

Lemma byte_of_Z_of_byte (b : byte) : byte_of_Z (Z_of_byte b) = b.
Proof.
  unfold byte_of_Z. rewrite to_uint8_small by apply Z_of_byte_range.
  unfold Z_of_byte. rewrite N2Z.id, Byte.of_to_N. reflexivity.
Qed.

Lemma byte_of_Z_ext (v w : Z) : to_uint8 v = to_uint8 w → byte_of_Z v = byte_of_Z w.
Proof. unfold byte_of_Z. intros ->. reflexivity. Qed.

Lemma Z_of_byte_testbit_high (b : byte) (i : Z) :
  8 ≤ i → Z.testbit (Z_of_byte b) i = false.
Proof.
  intros Hi. rewrite <- (to_uint8_small (Z_of_byte b)) by apply Z_of_byte_range.
  unfold to_uint8. change 255 with (Z.ones 8).
  rewrite Z.land_spec, Z.ones_spec_high by lia. apply andb_false_r.
Qed.

(** ** Bit-level reasoning *)

Lemma mask_0xff : 0xff = Z.ones 8.
Proof. reflexivity. Qed.
Lemma mask_0xffff : 0xffff = Z.ones 16.
Proof. reflexivity. Qed.
Lemma mask_0xffffffff : 0xffffffff = Z.ones 32.
Proof. reflexivity. Qed.
Lemma mask_0xff00 : 0xff00 = Z.shiftl (Z.ones 8) 8.
Proof. reflexivity. Qed.

(** One rewriting step on the bit at a known position. *)
Ltac bit_step :=
  match goal with
  | |- context [Z.testbit (Z.lor _ _) _] => rewrite Z.lor_spec
  | |- context [Z.testbit (Z.land _ _) _] => rewrite Z.land_spec
  | |- context [Z.testbit (Z.shiftr ?a ?k) ?i] =>
      rewrite (Z.shiftr_spec a k i) by lia
  | |- context [Z.testbit (Z.shiftl ?a ?k) ?i] =>
      first [ rewrite (Z.shiftl_spec_low a k i) by lia
            | rewrite (Z.shiftl_spec_high a k i) by lia ]
  | |- context [Z.testbit (Z.ones ?k) ?i] =>
      first [ rewrite (Z.ones_spec_low k i) by lia
            | rewrite (Z.ones_spec_high k i) by lia ]
  | |- context [Z.testbit (Z_of_byte ?b) ?i] =>
      rewrite (Z_of_byte_testbit_high b i) by lia
  | |- context [Z.testbit 0 ?i] => rewrite (Z.testbit_0_l i)
  end.

(** The byte a bit position falls in. *)
Ltac bit_cases n :=
  let H := fresh "Hbyte" in
  assert (n < 8 ∨ 8 ≤ n < 16 ∨ 16 ≤ n < 24 ∨ 24 ≤ n < 32 ∨ 32 ≤ n) as H by lia;
  destruct H as [?|[?|[?|[?|?]]]].

(** Equations between masks, shifts and ors of at most 32 bits, bit by bit. *)
Ltac bits :=
  unfold to_uint8, to_uint16, to_uint32, bswap16, bswap32, wire_int;
  simpl rev; simpl int_le;
  rewrite ?mask_0xff, ?mask_0xffff, ?mask_0xffffffff, ?mask_0xff00;
  apply Z.bits_inj'; intros n Hn; bit_cases n;
  repeat bit_step;
  rewrite ?andb_true_r, ?andb_false_r, ?orb_false_r, ?orb_false_l,
    ?andb_true_l, ?andb_false_l;
  try reflexivity; try (f_equal; lia).

Lemma to_uint16_idemp v : to_uint16 (to_uint16 v) = to_uint16 v.
Proof. bits. Qed.
Lemma to_uint32_idemp v : to_uint32 (to_uint32 v) = to_uint32 v.
Proof. bits. Qed.
Lemma to_uint8_idemp v : to_uint8 (to_uint8 v) = to_uint8 v.
Proof. bits. Qed.
Lemma to_uint16_uint8 v : to_uint16 (to_uint8 v) = to_uint8 v.
Proof. bits. Qed.

Lemma to_uint16_small (v : Z) : 0 ≤ v < 2 ^ 16 → to_uint16 v = v.
Proof.
  intros Hv. unfold to_uint16. rewrite mask_0xffff, Z.land_ones by lia.
  apply Z.mod_small. lia.
Qed.

Lemma to_uint32_small (v : Z) : 0 ≤ v < 2 ^ 32 → to_uint32 v = v.
Proof.
  intros Hv. unfold to_uint32. rewrite mask_0xffffffff, Z.land_ones by lia.
  apply Z.mod_small. lia.
Qed.

(** ** What the buffer primitives leave on the wire

    Whatever the byte order of the host, a conversion to network order
    followed by a native write leaves the bytes most significant first, and a
    native read followed by the conversion back reads them so. *)

Lemma native_encode_htons host v :
  native_encode host 2 (htons host v) = wire_bytes 2 v.
Proof.
  destruct host; unfold wire_bytes; simpl;
    repeat (f_equal; try (apply byte_of_Z_ext; bits)).
Qed.

Lemma native_encode_htonl host v :
  native_encode host 4 (htonl host v) = wire_bytes 4 v.
Proof.
  destruct host; unfold wire_bytes; simpl;
    repeat (f_equal; try (apply byte_of_Z_ext; bits)).
Qed.

Lemma ntohs_native_decode host b0 b1 :
  ntohs host (native_decode host [b0; b1]) = wire_int [b0; b1].
Proof. destruct host; unfold ntohs, htons, native_decode; simpl rev; bits. Qed.

Lemma ntohl_native_decode host b0 b1 b2 b3 :
  ntohl host (native_decode host [b0; b1; b2; b3]) = wire_int [b0; b1; b2; b3].
Proof. destruct host; unfold ntohl, htonl, native_decode; simpl rev; bits. Qed.

Lemma wire_int_1 b : wire_int [b] = Z_of_byte b.
Proof. bits. Qed.

Lemma wire_int_bytes_1 v : wire_int (wire_bytes 1 v) = to_uint8 v.
Proof.
  unfold wire_bytes; simpl bytes_le; simpl rev. rewrite wire_int_1.
  apply Z_of_byte_of_Z.
Qed.

Lemma wire_int_bytes_2 v : wire_int (wire_bytes 2 v) = to_uint16 v.
Proof.
  unfold wire_bytes, wire_int; simpl bytes_le; simpl rev; simpl int_le.
  rewrite !Z_of_byte_of_Z. bits.
Qed.

Lemma wire_int_bytes_4 v : wire_int (wire_bytes 4 v) = to_uint32 v.
Proof.
  unfold wire_bytes, wire_int; simpl bytes_le; simpl rev; simpl int_le.
  rewrite !Z_of_byte_of_Z. bits.
Qed.

(** ** Memory accesses *)

Lemma store_Some (m : mem) p bs :
  (p + length bs ≤ length m)%nat → store m p bs = Some (list_inserts p bs m).
Proof. intros H. unfold store. rewrite decide_True; done. Qed.

Lemma store_inv (m m' : mem) p bs :
  store m p bs = Some m' →
  (p + length bs ≤ length m)%nat ∧ m' = list_inserts p bs m.
Proof. unfold store. case_decide; naive_solver. Qed.

Lemma store_length (m m' : mem) p bs :
  store m p bs = Some m' → length m' = length m.
Proof. intros [_ ->]%store_inv. apply length_inserts. Qed.

Lemma store_lookup_outside (m m' : mem) p bs (i : nat) :
  store m p bs = Some m' → (i < p ∨ p + length bs ≤ i)%nat → m' !! i = m !! i.
Proof.
  intros [_ ->]%store_inv [?|?].
  - by apply list_lookup_inserts_lt.
  - by apply list_lookup_inserts_ge.
Qed.

Lemma store_lookup_inside (m m' : mem) p bs (i : nat) :
  store m p bs = Some m' → (i < length bs)%nat → m' !! (p + i)%nat = bs !! i.
Proof.
  intros [? ->]%store_inv ?. rewrite list_lookup_inserts by lia.
  f_equal. lia.
Qed.

Lemma load_lookup (m : mem) bs : ∀ p,
  (∀ i, (i < length bs)%nat → m !! (p + i)%nat = bs !! i) →
  load m p (length bs) = Some bs.
Proof.
  induction bs as [|b bs IH]; intros p H; [done|]. simpl.
  rewrite <- (Nat.add_0_r p) at 1. rewrite (H 0%nat) by (simpl; lia). simpl.
  rewrite IH; [done|]. intros i Hi.
  replace (S p + i)%nat with (p + S i)%nat by lia. apply (H (S i)). simpl; lia.
Qed.

Lemma load_store (m m' : mem) p bs :
  store m p bs = Some m' → load m' p (length bs) = Some bs.
Proof.
  intros H. apply load_lookup. intros i Hi. by eapply store_lookup_inside.
Qed.

Lemma store_store (m m' : mem) p bs :
  store m p bs = Some m' → store m' p bs = Some m'.
Proof.
  intros H. pose proof (store_length _ _ _ _ H) as Hlen.
  pose proof (store_inv _ _ _ _ H) as [Hle _].
  rewrite store_Some by lia. f_equal.
  apply list_eq. intros i.
  destruct (decide (p ≤ i < p + length bs)%nat) as [Hin|Hout].
  - rewrite list_lookup_inserts by lia.
    replace i with (p + (i - p))%nat at 2 by lia.
    symmetry. eapply store_lookup_inside; [done|lia].
  - destruct (decide (i < p)%nat).
    + by rewrite list_lookup_inserts_lt.
    + rewrite list_lookup_inserts_ge by lia. done.
Qed.

(** ** The accessors in terms of wire bytes *)

Lemma buf_u16_set_wire host m p v :
  buf_u16_set host m p v = store m p (wire_bytes 2 v).
Proof. unfold buf_u16_set. by rewrite native_encode_htons. Qed.

Lemma buf_u32_set_wire host m p v :
  buf_u32_set host m p v = store m p (wire_bytes 4 v).
Proof. unfold buf_u32_set. by rewrite native_encode_htonl. Qed.

Lemma buf_u8_get_wire m p : buf_u8_get m p = wire_int <$> load m p 1.
Proof.
  unfold buf_u8_get. simpl. destruct (m !! p); simpl; [|done].
  by rewrite wire_int_1.
Qed.

Lemma buf_u16_get_wire host m p :
  buf_u16_get host m p = wire_int <$> load m p 2.
Proof.
  unfold buf_u16_get. simpl.
  destruct (m !! p), (m !! S p); simpl; try done.
  by rewrite ntohs_native_decode.
Qed.

Lemma buf_u32_get_wire host m p :
  buf_u32_get host m p = wire_int <$> load m p 4.
Proof.
  unfold buf_u32_get. simpl.
  destruct (m !! p), (m !! S p), (m !! S (S p)), (m !! S (S (S p)));
    simpl; try done.
  by rewrite ntohl_native_decode.
Qed.

Lemma field_offset_flow_mod version :
  OF_MESSAGE_FLOW_MOD_COMMAND_OFFSET version = field_offset (FlowModCommand version).
Proof.
  unfold OF_MESSAGE_FLOW_MOD_COMMAND_OFFSET, field_offset, OF_VERSION_1_0.
  case_decide; destruct (Z.eqb_spec version 1); congruence.
Qed.

Lemma field_set_wire host f m msg v :
  field_set host f m msg v =
  store m (msg + field_offset f) (wire_bytes (field_width f) (field_arg f v)).
Proof.
  destruct f; simpl;
    unfold of_message_version_set, of_message_type_set, of_message_length_set,
      of_message_xid_set, of_message_stats_type_set,
      of_message_experimenter_id_set, of_message_experimenter_subtype_set,
      of_message_flow_mod_command_set;
    rewrite ?buf_u16_set_wire, ?buf_u32_set_wire; try reflexivity.
  - by rewrite Nat.add_0_r.
  - rewrite field_offset_flow_mod. simpl. case_decide.
    + by rewrite to_uint16_uint8.
    + reflexivity.
Qed.

Lemma option_bind_Some {A} (o : option A) : o ≫= Some = o.
Proof. by destruct o. Qed.

Lemma field_get_wire host f m msg :
  field_get host f m msg =
  field_ret f <$> (wire_int <$> load m (msg + field_offset f) (field_width f)).
Proof.
  destruct f; cbn [field_get field_offset field_width];
    unfold of_message_version_get, of_message_type_get, of_message_length_get,
      of_message_xid_get, of_message_stats_type_get,
      of_message_experimenter_id_get, of_message_experimenter_subtype_get,
      of_message_flow_mod_command_get;
    rewrite ?option_bind_Some, ?buf_u16_get_wire, ?buf_u32_get_wire;
    try (rewrite <- buf_u8_get_wire);
    try (by destruct (load m _ _)).
  - unfold buf_u8_get. by destruct (m !! _).
  - unfold buf_u8_get. by destruct (m !! _).
  - rewrite field_offset_flow_mod. cbn [field_offset]. case_decide.
    + by destruct (load m _ _).
    + rewrite buf_u8_get_wire. simpl. destruct (m !! _); simpl; [|done].
      by rewrite wire_int_1, to_uint8_small by apply Z_of_byte_range.
Qed.

(** A set followed by the get of the same field. *)
Lemma field_get_set host f m m' msg v :
  field_set host f m msg v = Some m' →
  field_get host f m' msg =
  Some (field_ret f (wire_int (wire_bytes (field_width f) (field_arg f v)))).
Proof.
  rewrite field_set_wire, field_get_wire. intros Hs.
  apply load_store in Hs. revert Hs.
  replace (length (wire_bytes (field_width f) (field_arg f v)))
    with (field_width f).
  - by intros ->.
  - destruct f; try reflexivity. cbn [field_width]. by case_decide.
Qed.

Lemma field_set_is_Some host f m msg v :
  (msg + field_offset f + field_width f ≤ length m)%nat →
  is_Some (field_set host f m msg v).
Proof.
  intros H. rewrite field_set_wire, store_Some; [done|].
  replace (length (wire_bytes (field_width f) (field_arg f v)))
    with (field_width f); [lia|].
  destruct f; try reflexivity. cbn [field_width]. by case_decide.
Qed.

Lemma field_roundtrip_value f v :
  representable f v →
  field_ret f (wire_int (wire_bytes (field_width f) (field_arg f v))) = v.
Proof.
  unfold representable.
  destruct f; cbn [field_bits field_width field_arg field_ret]; intros Hv;
    rewrite ?wire_int_bytes_1, ?wire_int_bytes_2, ?wire_int_bytes_4,
      ?to_uint8_idemp, ?to_uint16_idemp, ?to_uint32_idemp;
    try (by apply to_uint8_small);
    try (by apply to_uint16_small);
    try (by apply to_uint32_small).
  case_decide;
    rewrite ?wire_int_bytes_1, ?wire_int_bytes_2, ?to_uint16_uint8,
      ?to_uint8_idemp; by apply to_uint8_small.
Qed.


Lemma wire_bytes_length f v :
  length (wire_bytes (field_width f) (field_arg f v)) = field_width f.
Proof. destruct f; try reflexivity. cbn [field_width]. by case_decide. Qed.

(** The bytes a set leaves in the range of its field. *)
Lemma field_set_load host f m m' msg v :
  field_set host f m msg v = Some m' →
  load m' (msg + field_offset f) (field_width f) =
  Some (wire_bytes (field_width f) (field_arg f v)).
Proof.
  rewrite field_set_wire. intros Hs%load_store.
  by rewrite wire_bytes_length in Hs.
Qed.

Lemma field_set_outside host f m m' msg v (i : nat) :
  field_set host f m msg v = Some m' →
  (i < msg + field_offset f ∨ msg + field_offset f + field_width f ≤ i)%nat →
  m' !! i = m !! i.
Proof.
  rewrite field_set_wire. intros Hs Hi.
  eapply store_lookup_outside; [done|]. rewrite wire_bytes_length. lia.
Qed.

Lemma load_1 (m : mem) p b : load m p 1 = Some [b] → m !! p = Some b.
Proof. simpl. destruct (m !! p); naive_solver. Qed.

Lemma load_2 (m : mem) p b0 b1 :
  load m p 2 = Some [b0; b1] → m !! p = Some b0 ∧ m !! (p + 1)%nat = Some b1.
Proof.
  simpl. rewrite Nat.add_1_r.
  destruct (m !! p), (m !! S p); naive_solver.
Qed.

(** ** The claims *)

(** C1: version dispatch of the flow-mod command accessors.  Setting the
    command 7 at version 1.0 writes the bytes 0x00,0x07 at offsets 56 and 57
    and leaves offset 25 as it was; at a later version it writes the byte
    0x07 at offset 25 and leaves offsets 56 and 57 as they were; the get at
    the same version then returns 7. *)
Theorem flow_mod_command_version_dispatch (host : byte_order) (m : mem)
    (msg : of_message_t) (version : of_version_t) :
  OF_VERSION_1_0 ≤ version →
  (msg + (if decide (version = OF_VERSION_1_0) then 58 else 26) ≤ length m)%nat →
  ∃ m',
    of_message_flow_mod_command_set host m msg version 7 = Some m' ∧
    of_message_flow_mod_command_get host m' msg version = Some 7 ∧
    if decide (version = OF_VERSION_1_0) then
      m' !! (msg + 56)%nat = Some x00 ∧ m' !! (msg + 57)%nat = Some x07 ∧
      m' !! (msg + 25)%nat = m !! (msg + 25)%nat
    else
      m' !! (msg + 25)%nat = Some x07 ∧
      m' !! (msg + 56)%nat = m !! (msg + 56)%nat ∧
      m' !! (msg + 57)%nat = m !! (msg + 57)%nat.
Proof.
  intros Hver Hlen.
  destruct (field_set_is_Some host (FlowModCommand version) m msg 7)
    as [m' Hs].
  { cbn [field_offset field_width]. case_decide; lia. }
  exists m'. split; [exact Hs|]. split.
  { change (field_get host (FlowModCommand version) m' msg = Some 7).
    rewrite (field_get_set _ _ _ _ _ _ Hs).
    by rewrite field_roundtrip_value. }
  pose proof (field_set_load _ _ _ _ _ _ Hs) as Hl.
  pose proof (λ i, field_set_outside _ _ _ _ _ _ i Hs) as Ho.
  cbn [field_offset field_width field_arg] in Hl, Ho.
  case_decide.
  - apply load_2 in Hl as [H56 H57].
    rewrite <- Nat.add_assoc in H57. split; [exact H56|]. split; [exact H57|].
    apply Ho. lia.
  - apply load_1 in Hl. split; [exact Hl|]. split; apply Ho; lia.
Qed.

Lemma flow_mod_command_version_dispatch_witness :
  (∃ m', of_message_flow_mod_command_set LittleEndian (zeros 64) 0%nat 1 7 = Some m' ∧
     of_message_flow_mod_command_get LittleEndian m' 0%nat 1 = Some 7 ∧
     m' !! 56%nat = Some x00 ∧ m' !! 57%nat = Some x07 ∧
     m' !! 25%nat = zeros 64 !! 25%nat) ∧
  (∃ m', of_message_flow_mod_command_set LittleEndian (zeros 64) 0%nat 4 7 = Some m' ∧
     of_message_flow_mod_command_get LittleEndian m' 0%nat 4 = Some 7 ∧
     m' !! 25%nat = Some x07 ∧ m' !! 56%nat = zeros 64 !! 56%nat ∧
     m' !! 57%nat = zeros 64 !! 57%nat).
Proof.
  split.
  - apply (flow_mod_command_version_dispatch LittleEndian (zeros 64) 0%nat 1);
      [unfold OF_VERSION_1_0; lia | simpl; lia].
  - apply (flow_mod_command_version_dispatch LittleEndian (zeros 64) 0%nat 4);
      [unfold OF_VERSION_1_0; lia | simpl; lia].
Defined.

(** C2: round trip.  For every field and every value representable in it, a
    set on a buffer long enough for the field, followed by the get of the
    same field, returns the value written. *)
Theorem set_get_roundtrip (host : byte_order) (f : field) (m : mem)
    (msg : of_message_t) (v : Z) :
  representable f v →
  (msg + field_offset f + field_width f ≤ length m)%nat →
  ∃ m', field_set host f m msg v = Some m' ∧ field_get host f m' msg = Some v.
Proof.
  intros Hv Hlen.
  destruct (field_set_is_Some host f m msg v Hlen) as [m' Hs].
  exists m'. split; [done|].
  rewrite (field_get_set _ _ _ _ _ _ Hs). by rewrite field_roundtrip_value.
Qed.

Lemma set_get_roundtrip_witness :
  ∃ m', field_set BigEndian Xid (zeros 8) 0%nat 0xDEADBEEF = Some m' ∧
        field_get BigEndian Xid m' 0%nat = Some 0xDEADBEEF.
Proof.
  apply (set_get_roundtrip BigEndian Xid (zeros 8) 0%nat 0xDEADBEEF).
  - unfold representable. simpl. lia.
  - simpl. lia.
Defined.

(** C3, as the code has it: the 2-byte fields length and stats type set to
    0x1234 hold the bytes 0x12,0x34, and the 4-byte fields xid, experimenter
    id and experimenter subtype set to 0x01020304 hold 0x01,0x02,0x03,0x04,
    most significant byte first on either host; the 2-byte form of the
    flow-mod command holds 0x00 followed by the command, a [uint8_t]. *)
Theorem multi_byte_fields_big_endian (host : byte_order) (f : field)
    (m m' : mem) (msg : of_message_t) (v : Z) :
  field_set host f m msg v = Some m' →
  (f = Length ∨ f = StatsType → v = 0x1234 →
     load m' (msg + field_offset f) 2 = Some [x12; x34]) ∧
  (f = Xid ∨ f = ExperimenterId ∨ f = ExperimenterSubtype → v = 0x01020304 →
     load m' (msg + field_offset f) 4 = Some [x01; x02; x03; x04]) ∧
  (f = FlowModCommand OF_VERSION_1_0 →
     load m' (msg + 56) 2 = Some [x00; byte_of_Z v]).
Proof.
  intros Hs. apply field_set_load in Hs.
  split; [|split].
  - intros [-> | ->] ->; exact Hs.
  - intros [-> | [-> | ->]] ->; exact Hs.
  - intros ->. etrans; [exact Hs|]. unfold wire_bytes. simpl.
    f_equal. f_equal; [|f_equal].
    + apply (byte_of_Z_ext _ 0). bits.
    + apply byte_of_Z_ext, to_uint8_idemp.
Qed.

Lemma multi_byte_fields_big_endian_witness :
  load [x00; x00; x12; x34] 2 2 = Some [x12; x34].
Proof.
  exact (proj1 (multi_byte_fields_big_endian LittleEndian Length (zeros 4)
                  [x00; x00; x12; x34] 0%nat 0x1234 eq_refl)
           (or_introl eq_refl) eq_refl).
Defined.

(** The claim C3 as stated fails for the 2-byte flow-mod command form: the
    command is a [uint8_t], so the argument 0x1234 arrives as 0x34 and is
    stored as 0x00,0x34. *)
Lemma flow_mod_command_0x1234_stored_as_0x0034 :
  ∃ m', of_message_flow_mod_command_set LittleEndian (zeros 64) 0%nat
          OF_VERSION_1_0 0x1234 = Some m' ∧
        m' !! 56%nat = Some x00 ∧ m' !! 57%nat = Some x34 ∧
        ¬ (m' !! 56%nat = Some x12 ∧ m' !! 57%nat = Some x34).
Proof.
  eexists. split; [vm_compute; reflexivity|].
  split; [reflexivity|]. split; [reflexivity|].
  intros [H56 _]. discriminate H56.
Qed.

(** C4: frame.  A set changes no byte outside the offset/width range of its
    field, and does not change the length of the buffer. *)
Theorem set_frame (host : byte_order) (f : field) (m m' : mem)
    (msg : of_message_t) (v : Z) :
  field_set host f m msg v = Some m' →
  length m' = length m ∧
  ∀ i : nat,
    (i < msg + field_offset f ∨ msg + field_offset f + field_width f ≤ i)%nat →
    m' !! i = m !! i.
Proof.
  intros Hs. split.
  - rewrite field_set_wire in Hs. by eapply store_length.
  - intros i Hi. by eapply field_set_outside.
Qed.

Lemma set_frame_witness :
  length [x00; x00; x12; x34] = length (zeros 4) ∧
  ∀ i : nat, (i < 0 + 2 ∨ 0 + 2 + 2 ≤ i)%nat →
    [x00; x00; x12; x34] !! i = zeros 4 !! i.
Proof.
  apply (set_frame BigEndian Length (zeros 4) [x00; x00; x12; x34] 0%nat 0x1234).
  reflexivity.
Defined.

(** C5: the stats type and the experimenter id share offset 8.  On a buffer of
    at least 12 bytes, setting the experimenter id to 0xAABBCCDD and then
    getting the stats type returns 0xAABB. *)
Theorem experimenter_id_aliases_stats_type (host : byte_order) (m : mem)
    (msg : of_message_t) :
  (msg + 12 ≤ length m)%nat →
  ∃ m', of_message_experimenter_id_set host m msg 0xAABBCCDD = Some m' ∧
        of_message_stats_type_get host m' msg = Some 0xAABB.
Proof.
  intros Hlen.
  destruct (field_set_is_Some host ExperimenterId m msg 0xAABBCCDD) as [m' Hs];
    [simpl; lia|].
  exists m'. split; [exact Hs|].
  rewrite field_set_wire in Hs.
  pose proof (store_lookup_inside _ _ _ _ 0 Hs) as H0.
  pose proof (store_lookup_inside _ _ _ _ 1 Hs) as H1.
  change (field_get host StatsType m' msg = Some 0xAABB).
  rewrite field_get_wire. cbn [field_offset field_width field_ret load] in *.
  rewrite Nat.add_0_r in H0. rewrite Nat.add_1_r in H1.
  rewrite H0, H1 by (simpl; lia). reflexivity.
Qed.

Lemma experimenter_id_aliases_stats_type_witness :
  ∃ m', of_message_experimenter_id_set LittleEndian (zeros 12) 0%nat 0xAABBCCDD
          = Some m' ∧
        of_message_stats_type_get LittleEndian m' 0%nat = Some 0xAABB.
Proof.
  apply (experimenter_id_aliases_stats_type LittleEndian (zeros 12) 0%nat).
  simpl. lia.
Defined.

(** C6, as the code has it: the minimum-length constants are 8 for the base
    header, 10 for the stats type, 16 for an experimenter message, and 57 at
    version 1.0 or 26 at any other version for the flow-mod command.  There
    is no constant for the experimenter id alone; its 12 bytes are the offset
    of the field plus its width. *)
Theorem min_length_constants (version : of_version_t) :
  OF_MESSAGE_MIN_LENGTH = 8%nat ∧
  OF_MESSAGE_MIN_STATS_LENGTH = 10%nat ∧
  OF_MESSAGE_EXPERIMENTER_MIN_LENGTH = 16%nat ∧
  OF_MESSAGE_MIN_FLOW_MOD_LENGTH version =
    (if decide (version = OF_VERSION_1_0) then 57 else 26)%nat ∧
  (OF_MESSAGE_EXPERIMENTER_ID_OFFSET + field_width ExperimenterId = 12)%nat.
Proof.
  repeat split.
  unfold OF_MESSAGE_MIN_FLOW_MOD_LENGTH, OF_VERSION_1_0.
  case_decide; destruct (Z.eqb_spec version 1); congruence.
Qed.

(** None of the minimum-length constants of the code has the value 12 that
    C6 gives for the experimenter id. *)
Lemma no_min_length_constant_is_12 :
  ¬ ∃ version : of_version_t,
      12%nat ∈ [ OF_MESSAGE_MIN_LENGTH; OF_MESSAGE_MIN_STATS_LENGTH;
                 OF_MESSAGE_MIN_FLOW_MOD_LENGTH version;
                 OF_MESSAGE_EXPERIMENTER_MIN_LENGTH ].
Proof.
  intros [version H]. unfold OF_MESSAGE_MIN_FLOW_MOD_LENGTH in H.
  destruct (version =? 1);
    repeat (apply elem_of_cons in H as [H|H]; [discriminate H|]);
    by apply elem_of_nil in H.
Qed.

(** C7: the example scenario.  On a 64-byte all-zero buffer, the five sets in
    order leave 4, 14, 0x00,0x40, 0xDE,0xAD,0xBE,0xEF in the first eight
    bytes, 2 at offset 25 and 0 everywhere else. *)
Theorem example_scenario (host : byte_order) :
  (m1 ← of_message_version_set (zeros 64) 0%nat 4;
   m2 ← of_message_type_set m1 0%nat 14;
   m3 ← of_message_length_set host m2 0%nat 64;
   m4 ← of_message_xid_set host m3 0%nat 0xDEADBEEF;
   of_message_flow_mod_command_set host m4 0%nat 4 2)
  = Some ([x04; x0e; x00; x40; xde; xad; xbe; xef]
            ++ replicate 17 x00 ++ [x02] ++ replicate 38 x00).
Proof. destruct host; vm_compute; reflexivity. Qed.

(** C8: idempotence.  Performing a set twice in succession with the same value
    gives the buffer that performing it once gives. *)
Theorem set_idempotent (host : byte_order) (f : field) (m : mem)
    (msg : of_message_t) (v : Z) :
  (m' ← field_set host f m msg v; field_set host f m' msg v)
  = field_set host f m msg v.
Proof.
  destruct (field_set host f m msg v) as [m'|] eqn:Hs; [|reflexivity].
  simpl. rewrite field_set_wire in *. by eapply store_store.
Qed.

(** C9: at version 1.0 the get returns the low 8 bits of the 2-byte
    big-endian value at offset 56, that is the byte at offset 57; the byte at
    offset 56 is discarded. *)
Theorem flow_mod_command_get_1_0_low_byte (host : byte_order) (m : mem)
    (msg : of_message_t) (b56 b57 : byte) :
  m !! (msg + 56)%nat = Some b56 →
  m !! (msg + 57)%nat = Some b57 →
  of_message_flow_mod_command_get host m msg OF_VERSION_1_0
    = Some (Z_of_byte b57) ∧
  Z_of_byte b57 = (Z_of_byte b56 * 256 + Z_of_byte b57) mod 256.
Proof.
  intros H56 H57. split.
  - change (field_get host (FlowModCommand OF_VERSION_1_0) m msg
            = Some (Z_of_byte b57)).
    rewrite field_get_wire.
    change (field_offset (FlowModCommand OF_VERSION_1_0)) with 56%nat.
    change (field_width (FlowModCommand OF_VERSION_1_0)) with 2%nat.
    cbn [load]. rewrite H56. replace (S (msg + 56)) with (msg + 57)%nat by lia.
    rewrite H57. cbn. f_equal.
    rewrite <- (to_uint8_small (Z_of_byte b57)) at 2 by apply Z_of_byte_range.
    bits.
  - pose proof (Z_of_byte_range b57).
    rewrite Z.add_comm, Z.mod_add by lia. by rewrite Z.mod_small.
Qed.

Lemma flow_mod_command_get_1_0_low_byte_witness :
  of_message_flow_mod_command_get LittleEndian (zeros 56 ++ [x12; x34]) 0%nat
    OF_VERSION_1_0 = Some (Z_of_byte x34) ∧
  Z_of_byte x34 = (Z_of_byte x12 * 256 + Z_of_byte x34) mod 256.
Proof.
  apply (flow_mod_command_get_1_0_low_byte LittleEndian
           (zeros 56 ++ [x12; x34]) 0%nat x12 x34); reflexivity.
Defined.

(** C10: the dispatch is a test against version 1.0 only.  At every other
    version value the get and the set use the 1-byte form at offset 25, so
    any two versions other than 1.0 are treated alike. *)
Theorem flow_mod_command_non_1_0 (host : byte_order) (m : mem)
    (msg : of_message_t) (version version' : of_version_t) (command : Z) :
  version ≠ OF_VERSION_1_0 →
  version' ≠ OF_VERSION_1_0 →
  of_message_flow_mod_command_get host m msg version
    = buf_u8_get m (msg + 25) ∧
  of_message_flow_mod_command_set host m msg version command
    = buf_u8_set m (msg + 25) command ∧
  of_message_flow_mod_command_get host m msg version
    = of_message_flow_mod_command_get host m msg version' ∧
  of_message_flow_mod_command_set host m msg version command
    = of_message_flow_mod_command_set host m msg version' command.
Proof.
  intros Hv Hv'.
  assert (∀ w, w ≠ OF_VERSION_1_0 →
    of_message_flow_mod_command_get host m msg w = buf_u8_get m (msg + 25) ∧
    of_message_flow_mod_command_set host m msg w command
      = buf_u8_set m (msg + 25) command) as Hone.
  { intros w Hw.
    unfold of_message_flow_mod_command_get, of_message_flow_mod_command_set.
    rewrite !decide_False by done.
    assert (OF_MESSAGE_FLOW_MOD_COMMAND_OFFSET w = 25%nat) as ->.
    { unfold OF_MESSAGE_FLOW_MOD_COMMAND_OFFSET.
      destruct (Z.eqb_spec w 1); [done|reflexivity]. }
    split; [apply option_bind_Some|].
    unfold buf_u8_set. f_equal. f_equal. apply byte_of_Z_ext, to_uint8_idemp. }
  destruct (Hone version Hv) as [Hg Hs], (Hone version' Hv') as [Hg' Hs'].
  repeat split; congruence.
Qed.

Lemma flow_mod_command_non_1_0_witness :
  of_message_flow_mod_command_get BigEndian (zeros 64) 0%nat 0
    = buf_u8_get (zeros 64) (0 + 25) ∧
  of_message_flow_mod_command_set BigEndian (zeros 64) 0%nat 0 3
    = buf_u8_set (zeros 64) (0 + 25) 3 ∧
  of_message_flow_mod_command_get BigEndian (zeros 64) 0%nat 0
    = of_message_flow_mod_command_get BigEndian (zeros 64) 0%nat 200 ∧
  of_message_flow_mod_command_set BigEndian (zeros 64) 0%nat 0 3
    = of_message_flow_mod_command_set BigEndian (zeros 64) 0%nat 200 3.
Proof.
  apply (flow_mod_command_non_1_0 BigEndian (zeros 64) 0%nat 0 200 3);
    unfold OF_VERSION_1_0; lia.
Defined.

(** The constant [OF_MESSAGE_MIN_FLOW_MOD_LENGTH] at version 1.0 is 57, but
    the 2-byte access at offset 56 reaches the byte at offset 57: a buffer of
    57 bytes is one byte short of a defined access, one of 58 is enough. *)
Remark flow_mod_command_1_0_needs_58 (host : byte_order) :
  of_message_flow_mod_command_get host (zeros 57) 0%nat OF_VERSION_1_0 = None ∧
  of_message_flow_mod_command_set host (zeros 57) 0%nat OF_VERSION_1_0 7 = None ∧
  of_message_flow_mod_command_get host (zeros 58) 0%nat OF_VERSION_1_0 = Some 0.
Proof. destruct host; vm_compute; auto. Qed.

(** ** More on memory accesses *)

Lemma load_length (m : mem) n : ∀ p bs, load m p n = Some bs → length bs = n.
Proof.
  induction n as [|n IH]; intros p bs; simpl.
  - by intros [= <-].
  - destruct (m !! p); simpl; [|done].
    destruct (load m (S p) n) as [r|] eqn:Hr; simpl; [|done].
    intros [= <-]. simpl. f_equal. by eapply IH.
Qed.

Lemma load_lookup_inv (m : mem) n : ∀ p bs,
  load m p n = Some bs →
  ∀ i, (i < n)%nat → m !! (p + i)%nat = bs !! i.
Proof.
  induction n as [|n IH]; intros p bs; simpl; [lia|].
  destruct (m !! p) as [b|] eqn:Hb; simpl; [|done].
  destruct (load m (S p) n) as [r|] eqn:Hr; simpl; [|done].
  intros [= <-] [|i] Hi.
  - by rewrite Nat.add_0_r.
  - replace (p + S i)%nat with (S p + i)%nat by lia. simpl.
    apply (IH _ _ Hr). lia.
Qed.

Lemma load_is_Some (m : mem) n : ∀ p,
  (0 < n)%nat → is_Some (load m p n) ↔ (p + n ≤ length m)%nat.
Proof.
  induction n as [|n IH]; intros p Hn; [lia|]. simpl.
  destruct (m !! p) as [b|] eqn:Hb; simpl.
  - apply lookup_lt_Some in Hb as Hlt.
    destruct n as [|n'].
    + simpl. split; [lia|eauto].
    + specialize (IH (S p) ltac:(lia)).
      destruct (load m (S p) (S n')) as [r|]; simpl.
      * split; [|eauto]. intros _.
        assert (S p + S n' ≤ length m)%nat by (apply IH; eauto). lia.
      * split; [by intros [? [=]]|]. intros H.
        assert (is_Some (@None (list byte))) as [? [=]]. apply IH. lia.
  - apply lookup_ge_None in Hb. split; [by intros [? [=]]|lia].
Qed.

Lemma load_ext (m m' : mem) n : ∀ p,
  (∀ i, (i < n)%nat → m' !! (p + i)%nat = m !! (p + i)%nat) →
  load m' p n = load m p n.
Proof.
  induction n as [|n IH]; intros p H; [done|]. simpl.
  pose proof (H 0%nat ltac:(lia)) as H0. rewrite Nat.add_0_r in H0.
  rewrite H0, (IH (S p)); [done|]. intros i Hi.
  replace (S p + i)%nat with (p + S i)%nat by lia. apply H. lia.
Qed.

Lemma store_is_Some (m : mem) p bs :
  is_Some (store m p bs) ↔ (p + length bs ≤ length m)%nat.
Proof. unfold store. case_decide; split; eauto; try lia. by intros [? [=]]. Qed.

Lemma list_inserts_lookup (m : mem) p bs (i : nat) :
  (p + length bs ≤ length m)%nat →
  list_inserts p bs m !! i =
  if decide (p ≤ i < p + length bs)%nat then bs !! (i - p)%nat else m !! i.
Proof.
  intros Hle. case_decide as Hi.
  - apply list_lookup_inserts; lia.
  - destruct (decide (i < p)%nat).
    + by apply list_lookup_inserts_lt.
    + apply list_lookup_inserts_ge. lia.
Qed.

(** Writes to ranges that do not overlap commute. *)
Lemma store_comm (m : mem) p1 bs1 p2 bs2 :
  (p1 + length bs1 ≤ p2 ∨ p2 + length bs2 ≤ p1)%nat →
  (m' ← store m p1 bs1; store m' p2 bs2)
  = (m' ← store m p2 bs2; store m' p1 bs1).
Proof.
  intros Hd. unfold store.
  destruct (decide (p1 + length bs1 ≤ length m)%nat) as [H1|H1];
    destruct (decide (p2 + length bs2 ≤ length m)%nat) as [H2|H2]; simpl;
    rewrite ?length_inserts, ?decide_True, ?decide_False by done; try done.
  f_equal. apply list_eq. intros i.
  rewrite !list_inserts_lookup by (rewrite ?length_inserts; lia).
  repeat case_decide; try done; lia.
Qed.

(** A second write of as many bytes to the same place replaces the first. *)
Lemma store_overwrite (m m1 : mem) p bs1 bs2 :
  length bs1 = length bs2 →
  store m p bs1 = Some m1 → store m1 p bs2 = store m p bs2.
Proof.
  intros Hlen [Hle ->]%store_inv. unfold store.
  rewrite length_inserts.
  case_decide; [|done]. f_equal. apply list_eq. intros i.
  rewrite !list_inserts_lookup by (rewrite ?length_inserts; lia).
  repeat case_decide; try done; lia.
Qed.

(** Writing back the bytes that are there changes nothing. *)
Lemma store_load (m : mem) p n bs :
  (0 < n)%nat → load m p n = Some bs → store m p bs = Some m.
Proof.
  intros Hpos Hl. pose proof (load_length _ _ _ _ Hl) as Hn.
  pose proof (load_lookup_inv _ _ _ _ Hl) as Hi.
  assert (p + length bs ≤ length m)%nat as Hle.
  { rewrite Hn. apply load_is_Some; [lia|]. eauto. }
  rewrite store_Some by done. f_equal. apply list_eq. intros i.
  rewrite list_inserts_lookup by done. case_decide; [|done].
  rewrite <- Hi by lia. f_equal. lia.
Qed.

(** ** Masks and shifts as arithmetic *)

Lemma to_uint8_mod v : to_uint8 v = v mod 2 ^ 8.
Proof. unfold to_uint8. rewrite mask_0xff. apply Z.land_ones. lia. Qed.
Lemma to_uint16_mod v : to_uint16 v = v mod 2 ^ 16.
Proof. unfold to_uint16. rewrite mask_0xffff. apply Z.land_ones. lia. Qed.
Lemma to_uint32_mod v : to_uint32 v = v mod 2 ^ 32.
Proof. unfold to_uint32. rewrite mask_0xffffffff. apply Z.land_ones. lia. Qed.

Lemma lor_byte_shiftl (b : byte) (x : Z) :
  Z.lor (Z_of_byte b) (Z.shiftl x 8) = x * 256 + Z_of_byte b.
Proof.
  rewrite <- Z.lxor_lor, <- Z.add_nocarry_lxor.
  - rewrite Z.shiftl_mul_pow2 by lia. change (2 ^ 8) with 256. lia.
  - bits.
  - bits.
Qed.

Lemma int_le_fold (bs : list byte) :
  int_le bs = fold_right (λ b acc, acc * 256 + Z_of_byte b) 0 bs.
Proof.
  induction bs as [|b r IH]; [done|]. simpl.
  by rewrite lor_byte_shiftl, IH.
Qed.

Lemma wire_int_be_value (bs : list byte) : wire_int bs = be_value bs.
Proof.
  unfold wire_int, be_value. rewrite int_le_fold.
  by rewrite fold_left_rev_right.
Qed.

Lemma int_le_range (bs : list byte) :
  0 ≤ int_le bs < 2 ^ (8 * Z.of_nat (length bs)).
Proof.
  induction bs as [|b r IH].
  - simpl. lia.
  - rewrite int_le_fold in *. cbn [fold_right length].
    pose proof (Z_of_byte_range b).
    replace (8 * Z.of_nat (S (length r))) with (8 * Z.of_nat (length r) + 8)
      by lia.
    rewrite Z.pow_add_r by lia. change (2 ^ 8) with 256. nia.
Qed.

Lemma be_value_range (bs : list byte) :
  0 ≤ be_value bs < 2 ^ (8 * Z.of_nat (length bs)).
Proof.
  rewrite <- wire_int_be_value. unfold wire_int.
  rewrite <- length_rev. apply int_le_range.
Qed.

Lemma field_width_pos f : (0 < field_width f)%nat.
Proof. destruct f; cbn [field_width]; try case_decide; lia. Qed.

Lemma field_bits_width f :
  field_bits f = 8 ∨ field_bits f = 8 * Z.of_nat (field_width f).
Proof. destruct f; cbn; auto. Qed.

(** The value a get returns, from the bytes of the field. *)
Lemma field_ret_be_value f (bs : list byte) :
  length bs = field_width f →
  field_ret f (wire_int bs) = be_value bs mod 2 ^ field_bits f.
Proof.
  intros Hlen. rewrite wire_int_be_value.
  pose proof (be_value_range bs) as Hr. rewrite Hlen in Hr.
  destruct f; cbn [field_ret field_bits] in *;
    try (symmetry; apply Z.mod_small; exact Hr).
  apply to_uint8_mod.
Qed.

(** The value that a set followed by a get gives back. *)
Lemma field_roundtrip_mod f v :
  field_ret f (wire_int (wire_bytes (field_width f) (field_arg f v)))
  = v mod 2 ^ field_bits f.
Proof.
  destruct f; cbn [field_bits field_width field_arg field_ret];
    try case_decide;
    rewrite ?wire_int_bytes_1, ?wire_int_bytes_2, ?wire_int_bytes_4,
      ?to_uint16_uint8, ?to_uint8_idemp, ?to_uint16_idemp, ?to_uint32_idemp;
    first [apply to_uint8_mod | apply to_uint16_mod | apply to_uint32_mod].
Qed.

(** ** Further properties of the accessors *)

(** X1: an access is defined exactly on the buffers that hold the bytes of the
    field: offset plus width bytes from the start of the message. *)
Theorem field_access_defined (host : byte_order) (f : field) (m : mem)
    (msg : of_message_t) (v : Z) :
  (is_Some (field_get host f m msg)
     ↔ (msg + field_offset f + field_width f ≤ length m)%nat) ∧
  (is_Some (field_set host f m msg v)
     ↔ (msg + field_offset f + field_width f ≤ length m)%nat).
Proof.
  split.
  - rewrite field_get_wire, !fmap_is_Some.
    apply load_is_Some, field_width_pos.
  - rewrite field_set_wire, store_is_Some, wire_bytes_length. lia.
Qed.

(** X2: the minimum-length constants are enough for the fields of their
    group, the flow-mod command at version 1.0 apart: on a buffer of that
    many bytes the get and the set of the field are defined. *)
Theorem min_length_suffices (host : byte_order) (f : field) (m : mem)
    (msg : of_message_t) (v : Z) :
  f ≠ FlowModCommand OF_VERSION_1_0 →
  (msg + min_length f ≤ length m)%nat →
  is_Some (field_get host f m msg) ∧ is_Some (field_set host f m msg v).
Proof.
  intros Hf Hlen.
  assert (msg + field_offset f + field_width f ≤ length m)%nat as Hle.
  { destruct f; cbn [field_offset field_width min_length] in *;
      unfold OF_MESSAGE_MIN_LENGTH, OF_MESSAGE_MIN_STATS_LENGTH,
        OF_MESSAGE_STATS_TYPE_OFFSET, OF_MESSAGE_EXPERIMENTER_MIN_LENGTH,
        OF_MESSAGE_MIN_FLOW_MOD_LENGTH in Hlen; try lia.
    case_decide; [congruence|].
    destruct (Z.eqb_spec version 1); [done|lia]. }
  split.
  - rewrite field_get_wire, !fmap_is_Some.
    by apply load_is_Some; [apply field_width_pos|].
  - by apply field_set_is_Some.
Qed.

Lemma min_length_suffices_witness :
  is_Some (field_get LittleEndian ExperimenterSubtype (zeros 16) 0%nat) ∧
  is_Some (field_set LittleEndian ExperimenterSubtype (zeros 16) 0%nat 5).
Proof.
  apply (min_length_suffices LittleEndian ExperimenterSubtype (zeros 16) 0%nat 5).
  - discriminate.
  - vm_compute. lia.
Defined.

(** X3: at version 1.0 the constant is one byte short.  On a buffer of
    [OF_MESSAGE_MIN_FLOW_MOD_LENGTH] bytes, or fewer, the 2-byte access of the
    command at offset 56 runs past the end. *)
Theorem min_flow_mod_length_1_0_short (host : byte_order) (m : mem)
    (msg : of_message_t) (command : Z) :
  (length m ≤ msg + OF_MESSAGE_MIN_FLOW_MOD_LENGTH OF_VERSION_1_0)%nat →
  of_message_flow_mod_command_get host m msg OF_VERSION_1_0 = None ∧
  of_message_flow_mod_command_set host m msg OF_VERSION_1_0 command = None.
Proof.
  intros Hlen. change (OF_MESSAGE_MIN_FLOW_MOD_LENGTH OF_VERSION_1_0) with 57%nat in Hlen.
  split.
  - change (field_get host (FlowModCommand OF_VERSION_1_0) m msg = None).
    apply eq_None_not_Some. rewrite field_get_wire, !fmap_is_Some.
    rewrite load_is_Some by apply field_width_pos.
    change (field_offset (FlowModCommand OF_VERSION_1_0)) with 56%nat.
    change (field_width (FlowModCommand OF_VERSION_1_0)) with 2%nat. lia.
  - change (field_set host (FlowModCommand OF_VERSION_1_0) m msg command = None).
    apply eq_None_not_Some. rewrite field_set_wire, store_is_Some.
    rewrite wire_bytes_length.
    change (field_offset (FlowModCommand OF_VERSION_1_0)) with 56%nat.
    change (field_width (FlowModCommand OF_VERSION_1_0)) with 2%nat. lia.
Qed.

Lemma min_flow_mod_length_1_0_short_witness :
  of_message_flow_mod_command_get BigEndian (zeros 57) 0%nat OF_VERSION_1_0 = None ∧
  of_message_flow_mod_command_set BigEndian (zeros 57) 0%nat OF_VERSION_1_0 3 = None.
Proof.
  apply (min_flow_mod_length_1_0_short BigEndian (zeros 57) 0%nat 3).
  vm_compute. lia.
Defined.

(** X4: a set converts its argument to the type of the field.  For any
    integer argument, the get that follows returns the argument modulo 2 to
    the number of bits of the field. *)
Theorem set_get_modulo (host : byte_order) (f : field) (m : mem)
    (msg : of_message_t) (v : Z) :
  (msg + field_offset f + field_width f ≤ length m)%nat →
  ∃ m', field_set host f m msg v = Some m' ∧
        field_get host f m' msg = Some (v mod 2 ^ field_bits f).
Proof.
  intros Hlen.
  destruct (field_set_is_Some host f m msg v Hlen) as [m' Hs].
  exists m'. split; [done|].
  rewrite (field_get_set _ _ _ _ _ _ Hs). by rewrite field_roundtrip_mod.
Qed.

Lemma set_get_modulo_witness :
  ∃ m', field_set LittleEndian Length (zeros 4) 0%nat 0x12345 = Some m' ∧
        field_get LittleEndian Length m' 0%nat = Some (0x12345 mod 2 ^ 16).
Proof.
  apply (set_get_modulo LittleEndian Length (zeros 4) 0%nat 0x12345).
  simpl. lia.
Defined.

(** X5: a get returns a value of the type of the field: between 0 and 2 to
    the number of bits of the field, whatever the bytes of the buffer are. *)
Theorem get_in_range (host : byte_order) (f : field) (m : mem)
    (msg : of_message_t) (r : Z) :
  field_get host f m msg = Some r → 0 ≤ r < 2 ^ field_bits f.
Proof.
  rewrite field_get_wire.
  destruct (load m _ _) as [bs|] eqn:Hl; [|done]. simpl. intros [= <-].
  rewrite field_ret_be_value by (by eapply load_length).
  apply Z.mod_pos_bound. destruct (field_bits_width f) as [-> | ->]; lia.
Qed.

Lemma get_in_range_witness : 0 ≤ 0xBEEF < 2 ^ field_bits StatsType.
Proof.
  apply (get_in_range BigEndian StatsType
           (zeros 8 ++ [xbe; xef]) 0%nat 0xBEEF).
  reflexivity.
Defined.

(** X6: the last write wins.  A set of a field replaces what an earlier set
    of the same field wrote. *)
Theorem set_overwrites (host : byte_order) (f : field) (m m1 : mem)
    (msg : of_message_t) (v1 v2 : Z) :
  field_set host f m msg v1 = Some m1 →
  field_set host f m1 msg v2 = field_set host f m msg v2.
Proof.
  rewrite !field_set_wire. apply store_overwrite.
  by rewrite !wire_bytes_length.
Qed.

Lemma set_overwrites_witness :
  field_set LittleEndian Xid [x00; x00; x00; x00; x00; x00; x00; x07] 0%nat 9
  = field_set LittleEndian Xid (zeros 8) 0%nat 9.
Proof.
  apply (set_overwrites LittleEndian Xid (zeros 8)
           [x00; x00; x00; x00; x00; x00; x00; x07] 0%nat 7 9).
  reflexivity.
Defined.

(** X7: sets of fields whose byte ranges do not overlap commute. *)
Theorem disjoint_sets_commute (host : byte_order) (f g : field) (m : mem)
    (msg : of_message_t) (v w : Z) :
  disjoint_fields f g →
  (m' ← field_set host f m msg v; field_set host g m' msg w)
  = (m' ← field_set host g m msg w; field_set host f m' msg v).
Proof.
  intros Hd. unfold disjoint_fields in Hd.
  pose proof (store_comm m (msg + field_offset f)
    (wire_bytes (field_width f) (field_arg f v)) (msg + field_offset g)
    (wire_bytes (field_width g) (field_arg g w))) as Hc.
  rewrite !wire_bytes_length in Hc. specialize (Hc ltac:(lia)).
  rewrite !field_set_wire.
  etrans; [|etrans; [exact Hc|]].
  - apply option_bind_ext; [|done]. intros m1. apply field_set_wire.
  - apply option_bind_ext; [|done]. intros m1. symmetry. apply field_set_wire.
Qed.

Lemma disjoint_sets_commute_witness :
  (m' ← field_set LittleEndian Length (zeros 8) 0%nat 64;
   field_set LittleEndian Xid m' 0%nat 0xDEADBEEF)
  = (m' ← field_set LittleEndian Xid (zeros 8) 0%nat 0xDEADBEEF;
     field_set LittleEndian Length m' 0%nat 64).
Proof.
  apply (disjoint_sets_commute LittleEndian Length Xid (zeros 8) 0%nat
           64 0xDEADBEEF).
  left. simpl. lia.
Defined.

(** X8: a set leaves the value of every field that it does not overlap. *)
Theorem set_preserves_disjoint_get (host : byte_order) (f g : field)
    (m m' : mem) (msg : of_message_t) (v : Z) :
  disjoint_fields f g →
  field_set host f m msg v = Some m' →
  field_get host g m' msg = field_get host g m msg.
Proof.
  intros Hd Hs. unfold disjoint_fields in Hd.
  rewrite !field_get_wire. f_equal. f_equal.
  apply load_ext. intros i Hi.
  eapply field_set_outside; [exact Hs|]. lia.
Qed.

Lemma set_preserves_disjoint_get_witness :
  field_get BigEndian (FlowModCommand 4)
    (zeros 56 ++ [x00; x07] ++ zeros 6) 0%nat
  = field_get BigEndian (FlowModCommand 4) (zeros 64) 0%nat.
Proof.
  apply (set_preserves_disjoint_get BigEndian (FlowModCommand 1)
           (FlowModCommand 4) (zeros 64) (zeros 56 ++ [x00; x07] ++ zeros 6)
           0%nat 7).
  - right. simpl. lia.
  - reflexivity.
Defined.

Lemma byte_of_Z_eq (x : Z) (b : byte) : to_uint8 x = Z_of_byte b → byte_of_Z x = b.
Proof.
  intros H. rewrite <- (byte_of_Z_of_byte b). apply byte_of_Z_ext.
  by rewrite H, to_uint8_small by apply Z_of_byte_range.
Qed.

(** The bytes of a field, read as its value and written back. *)
Lemma wire_bytes_int f (bs : list byte) :
  f ≠ FlowModCommand OF_VERSION_1_0 →
  length bs = field_width f →
  wire_bytes (field_width f) (field_arg f (field_ret f (wire_int bs))) = bs.
Proof.
  intros Hf Hlen.
  destruct f; cbn [field_width field_arg field_ret] in *;
    try (case_decide; [congruence|]);
    repeat (destruct bs as [|? bs]; try discriminate Hlen);
    unfold wire_bytes; cbn [bytes_le rev app];
    repeat (f_equal; try (apply byte_of_Z_eq; bits)).
Qed.

(** X9: writing back the value just read changes nothing, for every field but
    the flow-mod command at version 1.0. *)
Theorem set_of_get_is_identity (host : byte_order) (f : field) (m : mem)
    (msg : of_message_t) (v : Z) :
  f ≠ FlowModCommand OF_VERSION_1_0 →
  field_get host f m msg = Some v →
  field_set host f m msg v = Some m.
Proof.
  intros Hf. rewrite field_get_wire, field_set_wire.
  destruct (load m _ _) as [bs|] eqn:Hl; [|done]. simpl. intros [= <-].
  rewrite wire_bytes_int by (done || by eapply load_length).
  eapply store_load; [apply (field_width_pos f)|done].
Qed.

Lemma set_of_get_is_identity_witness :
  field_set LittleEndian Xid [x04; x0e; x00; x40; xde; xad; xbe; xef] 0%nat
    0xDEADBEEF
  = Some [x04; x0e; x00; x40; xde; xad; xbe; xef].
Proof.
  apply (set_of_get_is_identity LittleEndian Xid
           [x04; x0e; x00; x40; xde; xad; xbe; xef] 0%nat 0xDEADBEEF).
  - discriminate.
  - reflexivity.
Defined.

(** X10: at version 1.0 the command read and written back clears the byte at
    offset 56 and leaves everything else: the get drops the high byte of the
    2-byte field and the set writes it as zero. *)
Theorem flow_mod_command_1_0_set_of_get (host : byte_order) (m : mem)
    (msg : of_message_t) (command : Z) :
  of_message_flow_mod_command_get host m msg OF_VERSION_1_0 = Some command →
  of_message_flow_mod_command_set host m msg OF_VERSION_1_0 command
  = Some (<[(msg + 56)%nat := x00]> m).
Proof.
  change (field_get host (FlowModCommand OF_VERSION_1_0) m msg = Some command →
          field_set host (FlowModCommand OF_VERSION_1_0) m msg command
          = Some (<[(msg + 56)%nat := x00]> m)).
  rewrite field_get_wire, field_set_wire.
  change (field_offset (FlowModCommand OF_VERSION_1_0)) with 56%nat.
  change (field_width (FlowModCommand OF_VERSION_1_0)) with 2%nat.
  destruct (load m _ _) as [bs|] eqn:Hl; [|done]. simpl. intros [= <-].
  pose proof (load_length _ _ _ _ Hl) as Hlen.
  destruct bs as [|b0 [|b1 [|? ?]]]; try discriminate Hlen.
  pose proof (load_lookup_inv _ _ _ _ Hl 1%nat ltac:(lia)) as H1. simpl in H1.
  assert (msg + 56 + 2 ≤ length m)%nat as Hle.
  { apply load_is_Some; [lia|]. eauto. }
  assert (wire_bytes 2 (to_uint8 (to_uint8 (wire_int [b0; b1]))) = [x00; b1])
    as ->.
  { unfold wire_bytes. cbn [bytes_le rev app]. f_equal; [|f_equal].
    - apply (byte_of_Z_ext _ 0). bits.
    - apply byte_of_Z_eq. bits. }
  rewrite store_Some by (simpl; lia). f_equal. cbn [list_inserts].
  f_equal. apply list_insert_id. by rewrite <- Nat.add_1_r.
Qed.

Lemma flow_mod_command_1_0_set_of_get_witness :
  of_message_flow_mod_command_set LittleEndian (zeros 56 ++ [x12; x34]) 0%nat
    OF_VERSION_1_0 0x34
  = Some (<[(0 + 56)%nat := x00]> (zeros 56 ++ [x12; x34])).
Proof.
  apply (flow_mod_command_1_0_set_of_get LittleEndian
           (zeros 56 ++ [x12; x34]) 0%nat 0x34).
  reflexivity.
Defined.

(** X11: a get reads the bytes of its field as a big-endian number, on either
    host, and returns it in the type of the field (for the command at version
    1.0, the low 8 bits of the 2-byte number). *)
Theorem get_reads_big_endian (host : byte_order) (f : field) (m : mem)
    (msg : of_message_t) (bs : list byte) :
  load m (msg + field_offset f) (field_width f) = Some bs →
  field_get host f m msg = Some (be_value bs mod 2 ^ field_bits f).
Proof.
  intros Hl. rewrite field_get_wire, Hl. simpl. f_equal.
  apply field_ret_be_value. by eapply load_length.
Qed.

Lemma get_reads_big_endian_witness :
  field_get LittleEndian Length [x04; x0e; x01; x02] 0%nat
  = Some (be_value [x01; x02] mod 2 ^ field_bits Length).
Proof.
  apply (get_reads_big_endian LittleEndian Length [x04; x0e; x01; x02] 0%nat
           [x01; x02]).
  reflexivity.
Defined.

Lemma div_pow256_shiftr (x : Z) (k : nat) :
  x / 256 ^ Z.of_nat k = Z.shiftr x (8 * Z.of_nat k).
Proof.
  rewrite Z.shiftr_div_pow2 by lia. f_equal.
  rewrite Z.pow_mul_r by lia. reflexivity.
Qed.

(** The bytes of the value a set stores, one by one. *)
Lemma wire_bytes_lookup f v (i : nat) :
  (i < field_width f)%nat →
  wire_bytes (field_width f) (field_arg f v) !! i
  = Some (byte_of_Z ((v mod 2 ^ field_bits f)
                       / 256 ^ Z.of_nat (field_width f - 1 - i))).
Proof.
  intros Hi. rewrite div_pow256_shiftr.
  destruct f; cbn [field_width field_bits field_arg] in *;
    try case_decide;
    rewrite <- ?to_uint8_mod;
    change (2 ^ (8 * Z.of_nat 1)) with (2 ^ 8);
    change (2 ^ (8 * Z.of_nat 2)) with (2 ^ 16);
    change (2 ^ (8 * Z.of_nat 4)) with (2 ^ 32);
    rewrite <- ?to_uint8_mod, <- ?to_uint16_mod, <- ?to_uint32_mod;
    repeat (destruct i as [|i]; [|try lia]);
    unfold wire_bytes; cbn [bytes_le rev app lookup list_lookup Nat.sub];
    try (f_equal; apply byte_of_Z_ext;
         match goal with
         | |- context [Z.shiftr _ (8 * Z.of_nat ?k)] =>
             let c := eval cbv in (8 * Z.of_nat k) in
             change (8 * Z.of_nat k) with c
         end; bits).
Qed.

(** X12: a set stores its value big-endian, on either host: byte [i] of the
    field holds digit [width - 1 - i], in base 256, of the value converted to
    the type of the field. *)
Theorem set_writes_big_endian (host : byte_order) (f : field) (m m' : mem)
    (msg : of_message_t) (v : Z) (i : nat) :
  field_set host f m msg v = Some m' →
  (i < field_width f)%nat →
  m' !! (msg + field_offset f + i)%nat
  = Some (byte_of_Z ((v mod 2 ^ field_bits f)
                       / 256 ^ Z.of_nat (field_width f - 1 - i))).
Proof.
  intros Hs Hi. apply field_set_load in Hs.
  rewrite (load_lookup_inv _ _ _ _ Hs i Hi).
  by apply wire_bytes_lookup.
Qed.

Lemma set_writes_big_endian_witness :
  [x00; x00; x00; x00; xde; xad; xbe; xef] !! (0 + field_offset Xid + 1)%nat
  = Some (byte_of_Z ((0xDEADBEEF mod 2 ^ field_bits Xid)
                       / 256 ^ Z.of_nat (field_width Xid - 1 - 1))).
Proof.
  apply (set_writes_big_endian LittleEndian Xid (zeros 8)
           [x00; x00; x00; x00; xde; xad; xbe; xef] 0%nat 0xDEADBEEF 1).
  - reflexivity.
  - simpl. lia.
Defined.

Lemma lor_shiftl16_add (x y : Z) :
  Z.lor (Z.shiftl (to_uint16 x) 16) (to_uint16 y)
  = (x mod 2 ^ 16) * 2 ^ 16 + y mod 2 ^ 16.
Proof.
  rewrite <- Z.lxor_lor, <- Z.add_nocarry_lxor.
  - rewrite Z.shiftl_mul_pow2 by lia. by rewrite !to_uint16_mod.
  - bits.
  - bits.
Qed.

(** X13: the stats type is the high half of the experimenter id.  Setting the
    experimenter id to any value and getting the stats type returns the high
    16 bits of the 32-bit value. *)
Theorem experimenter_id_set_stats_type_get (host : byte_order) (m m' : mem)
    (msg : of_message_t) (experimenter_id : Z) :
  of_message_experimenter_id_set host m msg experimenter_id = Some m' →
  of_message_stats_type_get host m' msg
  = Some ((experimenter_id mod 2 ^ 32) / 2 ^ 16).
Proof.
  intros Hs.
  change (field_set host ExperimenterId m msg experimenter_id = Some m') in Hs.
  change (field_get host StatsType m' msg
          = Some ((experimenter_id mod 2 ^ 32) / 2 ^ 16)).
  apply field_set_load in Hs.
  pose proof (load_lookup_inv _ _ _ _ Hs 0%nat ltac:(simpl; lia)) as H0.
  pose proof (load_lookup_inv _ _ _ _ Hs 1%nat ltac:(simpl; lia)) as H1.
  rewrite field_get_wire. cbn [field_offset field_width field_ret load] in *.
  rewrite Nat.add_0_r in H0. rewrite Nat.add_1_r in H1.
  rewrite H0, H1. unfold wire_bytes, wire_int. simpl. f_equal.
  rewrite !Z_of_byte_of_Z, <- Z.shiftr_div_pow2, <- to_uint32_mod by lia.
  bits.
Qed.

Lemma experimenter_id_set_stats_type_get_witness :
  of_message_stats_type_get LittleEndian
    (zeros 8 ++ [x01; x02; x03; x04]) 0%nat
  = Some ((0x01020304 mod 2 ^ 32) / 2 ^ 16).
Proof.
  apply (experimenter_id_set_stats_type_get LittleEndian (zeros 12)
           (zeros 8 ++ [x01; x02; x03; x04]) 0%nat 0x01020304).
  reflexivity.
Defined.

(** X14: setting the stats type replaces the high 16 bits of the experimenter
    id and keeps its low 16 bits. *)
Theorem stats_type_set_experimenter_id_get (host : byte_order) (m m' : mem)
    (msg : of_message_t) (type experimenter_id : Z) :
  of_message_experimenter_id_get host m msg = Some experimenter_id →
  of_message_stats_type_set host m msg type = Some m' →
  of_message_experimenter_id_get host m' msg
  = Some ((type mod 2 ^ 16) * 2 ^ 16 + experimenter_id mod 2 ^ 16).
Proof.
  intros Hg Hs.
  change (field_get host ExperimenterId m msg = Some experimenter_id) in Hg.
  change (field_set host StatsType m msg type = Some m') in Hs.
  change (field_get host ExperimenterId m' msg
          = Some ((type mod 2 ^ 16) * 2 ^ 16 + experimenter_id mod 2 ^ 16)).
  rewrite field_get_wire in Hg |- *.
  cbn [field_offset field_width field_ret] in *.
  destruct (load m (msg + 8) 4) as [bs|] eqn:Hl; [|done].
  simpl in Hg. injection Hg as <-.
  pose proof (load_length _ _ _ _ Hl) as Hlen.
  destruct bs as [|b0 [|b1 [|b2 [|b3 [|? ?]]]]]; try discriminate Hlen.
  pose proof (load_lookup_inv _ _ _ _ Hl) as Hm.
  pose proof (field_set_load _ _ _ _ _ _ Hs) as Hl'.
  pose proof (load_lookup_inv _ _ _ _ Hl') as Hm'.
  cbn [field_offset field_width field_arg] in Hl', Hm'.
  assert (load m' (msg + 8) 4
          = Some (wire_bytes 2 (to_uint16 type) ++ [b2; b3])) as ->.
  { apply (load_lookup m' (wire_bytes 2 (to_uint16 type) ++ [b2; b3])).
    intros i Hi. simpl in Hi.
    destruct (decide (i < 2)%nat).
    - rewrite Hm' by done. by rewrite lookup_app_l.
    - rewrite (field_set_outside _ _ _ _ _ _ _ Hs)
        by (cbn [field_offset field_width]; lia).
      rewrite Hm by lia.
      do 2 (destruct i as [|i]; [lia|]). by destruct i as [|[|i]]. }
  simpl. f_equal. rewrite <- lor_shiftl16_add.
  unfold wire_bytes, wire_int. simpl. rewrite !Z_of_byte_of_Z. bits.
Qed.

Lemma stats_type_set_experimenter_id_get_witness :
  of_message_experimenter_id_get LittleEndian
    (zeros 8 ++ [xaa; xbb; x03; x04]) 0%nat
  = Some ((0xAABB mod 2 ^ 16) * 2 ^ 16 + 0x01020304 mod 2 ^ 16).
Proof.
  apply (stats_type_set_experimenter_id_get LittleEndian
           (zeros 8 ++ [x01; x02; x03; x04])
           (zeros 8 ++ [xaa; xbb; x03; x04]) 0%nat 0xAABB 0x01020304);
    reflexivity.
Defined.

(** X15: a get reads only the bytes of its field.  On two buffers that hold
    the same bytes in the range of the field, it returns the same value. *)
Theorem get_reads_only_field (host : byte_order) (f : field) (m1 m2 : mem)
    (msg : of_message_t) :
  (∀ i : nat, (i < field_width f)%nat →
     m1 !! (msg + field_offset f + i)%nat = m2 !! (msg + field_offset f + i)%nat) →
  field_get host f m1 msg = field_get host f m2 msg.
Proof.
  intros H. rewrite !field_get_wire. f_equal. f_equal. by apply load_ext.
Qed.

Lemma get_reads_only_field_witness :
  field_get BigEndian MsgType [x01; x0e; x00; x08] 0%nat
  = field_get BigEndian MsgType [x04; x0e; xff; xff] 0%nat.
Proof.
  apply (get_reads_only_field BigEndian MsgType [x01; x0e; x00; x08]
           [x04; x0e; xff; xff] 0%nat).
  intros i Hi. simpl in Hi. by destruct i as [|i]; [|lia].
Defined.
